(** * Vector3.cpp: fetching and printing the prograde vector of the active vessel

    A verification development for [doc/src/scripts/Vector3.cpp], the
    kRPC C++ example whose [main] connects to the server, asks for the
    prograde direction of the active vessel in its flight, and prints the
    three components.

    The file has three parts:
    - [Ostream]: what [std::ostream::operator<<] does with a [double]
      under the stream's default flags (the "%g" conversion at precision 6);
    - [Program]: a small monad of programs that call the client library
      and insert into [std::cout], the environments ("worlds") such a
      program runs against, the interpreter, and [main] itself;
    - the properties of [main], and then further properties of the line
      it prints: how it reads back, and how long it can be. *)

From Stdlib Require Import ZArith NArith List String Ascii Bool Lia.
From Stdlib Require Import Floats DecimalString.
From Stdlib Require Decimal DecimalFacts DecimalPos DecimalN.
Import ListNotations.

Local Open Scope string_scope.
Local Open Scope Z_scope.

(* ===================================================================== *)
(** ** Default formatting of a [double] on an output stream               *)
(* ===================================================================== *)

Module Ostream.

(** [std::ios_base::precision()] of a freshly initialised stream. *)
Definition default_precision : Z := 6.

(** Decimal digits of a non-negative integer, most significant first. *)
Definition dec (n : Z) : string :=
  NilZero.string_of_uint (N.to_uint (Z.to_N n)).

Definition ndigits (n : Z) : Z := Z.of_nat (String.length (dec n)).

(** [ge_pow10 num den c] decides [10^c <= num/den]. *)
Definition ge_pow10 (num den c : Z) : bool :=
  if 0 <=? c then den * 10 ^ c <=? num else den <=? num * 10 ^ (- c).

(** The decimal exponent of the positive rational [num/den]: the [X]
    with [10^X <= num/den < 10^(X+1)].  The digit counts of [num] and
    [den] pin it down to two candidates. *)
Definition floor_log10 (num den : Z) : Z :=
  let c := ndigits num - ndigits den in
  if ge_pow10 num den c then c else c - 1.

(** [n/d] rounded to the nearest integer, ties to even (the default
    rounding direction, which the conversion honours). *)
Definition round_half_even (n d : Z) : Z :=
  let q := n / d in
  match 2 * (n mod d) ?= d with
  | Lt => q
  | Gt => q + 1
  | Eq => if Z.even q then q else q + 1
  end.

(** [num/den] rounded to [P] significant decimal digits: the pair
    [(q, X)] with [10^(P-1) <= q < 10^P] stands for [q * 10^(X-P+1)].
    Rounding may carry into a new leading digit (999999.5 becomes
    1.00000e+06), which moves the exponent by one. *)
Definition sig_digits (P num den : Z) : Z * Z :=
  let X0 := floor_log10 num den in
  let k := P - 1 - X0 in
  let q := if 0 <=? k then round_half_even (num * 10 ^ k) den
           else round_half_even num (den * 10 ^ (- k)) in
  if q =? 10 ^ P then (10 ^ (P - 1), X0 + 1) else (q, X0).

(** Without the [#] flag, "%g" removes trailing zeros of the fraction. *)
Fixpoint strip_zeros (s : string) : string :=
  match s with
  | EmptyString => EmptyString
  | String c r =>
      match strip_zeros r with
      | EmptyString => if Ascii.eqb c "0" then EmptyString else String c EmptyString
      | r' => String c r'
      end
  end.

(** ... and the decimal point as well when no fraction remains. *)
Definition with_point (ip fp : string) : string :=
  match fp with
  | EmptyString => ip
  | _ => ip ++ "." ++ fp
  end.

Fixpoint zeros (n : nat) : string :=
  match n with
  | O => EmptyString
  | S n' => String "0" (zeros n')
  end.

(** Style [f]: [ds] are the [P] significant digits, [-4 <= X < P]. *)
Definition style_f (P : Z) (ds : string) (X : Z) : string :=
  if 0 <=? X then
    with_point (substring 0 (Z.to_nat (X + 1)) ds)
               (strip_zeros (substring (Z.to_nat (X + 1)) (Z.to_nat (P - 1 - X)) ds))
  else
    with_point "0" (strip_zeros (zeros (Z.to_nat (- X - 1)) ++ ds)).

(** The exponent of style [e] has at least two digits. *)
Definition pad2 (s : string) : string :=
  if (String.length s <? 2)%nat then "0" ++ s else s.

Definition style_e (P : Z) (ds : string) (X : Z) : string :=
  with_point (substring 0 1 ds)
             (strip_zeros (substring 1 (Z.to_nat (P - 1)) ds))
  ++ "e" ++ (if X <? 0 then "-" else "+") ++ pad2 (dec (Z.abs X)).

Definition sign (s : bool) : string := if s then "-" else "".

(** The "%g" conversion at precision [p] of a binary floating-point
    value given by its sign, mantissa and binary exponent.  A precision
    of zero is taken as one.  With [X] the decimal exponent of the value
    rounded to [P] significant digits, style [f] is used when
    [-4 <= X < P] and style [e] otherwise. *)
Definition format_g (p : Z) (x : spec_float) : string :=
  let P := if p =? 0 then 1 else p in
  match x with
  | S754_nan => "nan"
  | S754_infinity s => sign s ++ "inf"
  | S754_zero s => sign s ++ "0"
  | S754_finite s m e =>
      let num := if 0 <=? e then Zpos m * 2 ^ e else Zpos m in
      let den := if 0 <=? e then 1 else 2 ^ (- e) in
      let '(q, X) := sig_digits P num den in
      sign s ++ (if (-4 <=? X) && (X <? P)
                 then style_f P (dec q) X
                 else style_e P (dec q) X)
  end.

(** [os << d] for a [double d] on a stream whose flags were never
    touched: [floatfield] is unset, so the conversion is "%g", at the
    default precision.  A [double] is a binary64 value; the primitive
    floats have a single NaN, so the sign a NaN may carry (printed as a
    leading minus by some C libraries) is out of the picture. *)
Definition put_double (d : float) : string :=
  format_g default_precision (Prim2SF d).

End Ostream.

(* ===================================================================== *)
(** ** Programs over the client library and [std::cout]                   *)
(* ===================================================================== *)

(** Modelled from the spec: the client library ([krpc.hpp],
    [krpc/services/space_center.hpp]) is not among the sources, only its
    caller is.  The spec calls it "a library that marshals local function
    calls into network requests against a remote service and unmarshals
    responses into local values"; its object types are therefore left
    abstract: a connection, the remote objects [main] passes through, and
    whatever a failed connection or call throws. *)
Class ClientLibrary : Type := {
  Client : Type;
  Vessel : Type;
  Flight : Type;
  exception : Type
}.

(** [std::tuple<double,double,double>] and [std::get<i>]. *)
Definition tuple3 : Type := float * float * float.

Definition get0 (v : tuple3) : float := fst (fst v).
Definition get1 (v : tuple3) : float := snd (fst v).
Definition get2 (v : tuple3) : float := snd v.

(** What may be inserted into [std::cout] by [operator<<]: a [double], a
    string literal, or the manipulator [std::endl] (a newline, then a
    flush).  Insertions do not throw: the stream's exception mask is
    never set. *)
Inductive output : Type :=
| put_double (d : float)
| put_string (s : string)
| endl.

Definition newline : string := String (ascii_of_nat 10) EmptyString.

(** The characters an insertion appends to the stream. *)
Definition render (o : output) : string :=
  match o with
  | put_double d => Ostream.put_double d
  | put_string s => s
  | endl => newline
  end.

(** The six insertions of lines 11 to 13 of the source, for a vector [v]. *)
Definition vector_line (v : tuple3) : list output :=
  [put_double (get0 v); put_string " "; put_double (get1 v); put_string " ";
   put_double (get2 v); endl].

(** Reading a text back the way a consumer of the output would, field by
    field: fields are the maximal runs of characters other than space
    and newline. *)
Definition is_blank (c : ascii) : bool :=
  Ascii.eqb c " " || Ascii.eqb c (ascii_of_nat 10).

Fixpoint blank_free (s : string) : bool :=
  match s with
  | EmptyString => true
  | String c r => negb (is_blank c) && blank_free r
  end.

Definition close_field (acc : string) (rest : list string) : list string :=
  match acc with
  | EmptyString => rest
  | _ => acc :: rest
  end.

Fixpoint fields_from (acc s : string) : list string :=
  match s with
  | EmptyString => close_field acc []
  | String c r =>
      if is_blank c then close_field acc (fields_from "" r)
      else fields_from (acc ++ String c "") r
  end.

Definition fields (s : string) : list string := fields_from "" s.

Module Program.

(** [SpaceCenter sc(&conn)]: the service object only remembers the
    connection it was built on. *)
Record SpaceCenter {L : ClientLibrary} : Type := mkSpaceCenter { client : Client }.

Arguments mkSpaceCenter {L} client.

(** Modelled from the spec: the calls [main] makes into the client
    library, indexed by what they return.  [krpc::connect()] opens the
    connection; each of the three member functions is a local call that
    the library turns into one request to the server.  [flight] is called
    without argument, that is, with its default reference frame. *)
Inductive call {L : ClientLibrary} : Type -> Type :=
| connect : call Client
| active_vessel (sc : SpaceCenter) : call Vessel
| flight (vessel : Vessel) : call Flight
| prograde (fl : Flight) : call tuple3.

(** How the environment answers a call: it returns a value, it throws,
    or the (blocking) call never comes back. *)
Inductive reply {L : ClientLibrary} (A : Type) : Type :=
| Returns (a : A)
| Throws (e : exception)
| Blocks.

Arguments Returns {L A} a.
Arguments Throws {L A} e.
Arguments Blocks {L A}.

(** Programs: trees of library calls and stream insertions.  There is
    no handler for exceptions because the source has none. *)
Inductive prog {L : ClientLibrary} (R : Type) : Type :=
| Ret (r : R)
| Call (X : Type) (c : call X) (k : X -> prog R)
| Insert (o : output) (k : prog R).

Arguments Ret {L R} r.
Arguments Call {L R X} c k.
Arguments Insert {L R} o k.

Fixpoint bind {L : ClientLibrary} {A B : Type}
    (p : prog A) (f : A -> prog B) : prog B :=
  match p with
  | Ret a => f a
  | Call c k => Call c (fun x => bind (k x) f)
  | Insert o k => Insert o (bind k f)
  end.

Notation "x <- p ;; q" := (bind p (fun x => q))
  (at level 61, p at next level, right associativity).
Notation "p ;; q" := (bind p (fun _ => q))
  (at level 61, right associativity).

Definition invoke {L : ClientLibrary} {X : Type} (c : call X) : prog X :=
  Call c Ret.

(** [std::cout << o]. *)
Definition cout {L : ClientLibrary} (o : output) : prog unit :=
  Insert o (Ret tt).

(** The program.  Falling off the end of [main] returns 0. *)
Definition main {L : ClientLibrary} : prog Z :=
  conn <- invoke connect ;;
  let sc := mkSpaceCenter conn in
  v <- (vessel <- invoke (active_vessel sc) ;;
        fl <- invoke (flight vessel) ;;
        invoke (prograde fl)) ;;
  cout (put_double (get0 v)) ;; cout (put_string " ") ;;
  cout (put_double (get1 v)) ;; cout (put_string " ") ;;
  cout (put_double (get2 v)) ;; cout endl ;;
  Ret 0.

(** *** Runs *)

(** What an observer of the process sees, in order: every call with the
    answer it got, and every insertion into [std::cout]. *)
Inductive event {L : ClientLibrary} : Type :=
| EConnect (r : reply Client)
| EActiveVessel (sc : SpaceCenter) (r : reply Vessel)
| EFlight (vessel : Vessel) (r : reply Flight)
| EPrograde (fl : Flight) (r : reply tuple3)
| EInsert (o : output).

Definition observe {L : ClientLibrary} {X : Type} (c : call X)
    : reply X -> event :=
  match c in call T return reply T -> event with
  | connect => EConnect
  | active_vessel sc => EActiveVessel sc
  | flight vessel => EFlight vessel
  | prograde fl => EPrograde fl
  end.

(** How a process ends: [main] returns a status; or an exception leaves
    [main] uncaught and [std::terminate] aborts the process; or it is
    stuck for ever in a call that does not come back. *)
Inductive outcome {L : ClientLibrary} : Type :=
| Exited (code : Z)
| Terminated (e : exception)
| Hung.

(** The environment of a run: the network and the server behind it, as
    a state machine answering one call at a time. *)
Record world {L : ClientLibrary} : Type := mkWorld {
  wstate : Type;
  winit : wstate;
  respond : forall X : Type, call X -> wstate -> reply X * wstate
}.

Arguments mkWorld {L} wstate winit respond.

Record execution {L : ClientLibrary} : Type := mkExecution {
  trace : list event;
  status : outcome
}.

Arguments mkExecution {L} trace status.

Definition after {L : ClientLibrary} (ev : event) (x : execution) : execution :=
  mkExecution (ev :: trace x) (status x).

(** Running a program against a world.  A call that throws ends the run
    on the spot, since nothing catches; so does a call that blocks. *)
Fixpoint exec {L : ClientLibrary} (w : world) (p : prog Z) (s : wstate w)
    : execution :=
  match p with
  | Ret code => mkExecution [] (Exited code)
  | Call c k =>
      let '(r, s') := respond w _ c s in
      match r with
      | Returns a => after (observe c r) (exec w (k a) s')
      | Throws e => mkExecution [observe c r] (Terminated e)
      | Blocks => mkExecution [observe c r] Hung
      end
  | Insert o k => after (EInsert o) (exec w k s)
  end.

Definition run {L : ClientLibrary} (w : world) (p : prog Z) : execution :=
  exec w p (winit w).

(** *** Reading a trace *)

Inductive kind : Type := KConnect | KRequest | KInsert.

Definition kind_of {L : ClientLibrary} (ev : event) : kind :=
  match ev with
  | EConnect _ => KConnect
  | EActiveVessel _ _ | EFlight _ _ | EPrograde _ _ => KRequest
  | EInsert _ => KInsert
  end.

Definition is_connect {L : ClientLibrary} (ev : event) : bool :=
  match kind_of ev with KConnect => true | _ => false end.
Definition is_request {L : ClientLibrary} (ev : event) : bool :=
  match kind_of ev with KRequest => true | _ => false end.
Definition is_insert {L : ClientLibrary} (ev : event) : bool :=
  match kind_of ev with KInsert => true | _ => false end.

Definition connections {L : ClientLibrary} (t : list event) : list event :=
  filter is_connect t.
Definition requests {L : ClientLibrary} (t : list event) : list event :=
  filter is_request t.

(** The insertions of a trace, in order, and the text they leave on
    standard output. *)
Fixpoint inserted {L : ClientLibrary} (t : list event) : list output :=
  match t with
  | [] => []
  | EInsert o :: t' => o :: inserted t'
  | _ :: t' => inserted t'
  end.

Definition text (os : list output) : string := String.concat "" (map render os).

Definition stdout {L : ClientLibrary} (x : execution) : string :=
  text (inserted (trace x)).

(** The exception a call event ended with, if it did. *)
Definition thrown {A : Type} {L : ClientLibrary} (r : reply A) : option exception :=
  match r with Throws e => Some e | _ => None end.

Definition failure {L : ClientLibrary} (ev : event) : option exception :=
  match ev with
  | EConnect r => thrown r
  | EActiveVessel _ r => thrown r
  | EFlight _ r => thrown r
  | EPrograde _ r => thrown r
  | EInsert _ => None
  end.

(** The answers the environment gave during a run, without the calls
    they answer. *)
Inductive answer {L : ClientLibrary} : Type :=
| AClient (r : reply Client)
| AVessel (r : reply Vessel)
| AFlight (r : reply Flight)
| ATuple (r : reply tuple3).

Fixpoint answers {L : ClientLibrary} (t : list event) : list answer :=
  match t with
  | [] => []
  | EConnect r :: t' => AClient r :: answers t'
  | EActiveVessel _ r :: t' => AVessel r :: answers t'
  | EFlight _ r :: t' => AFlight r :: answers t'
  | EPrograde _ r :: t' => ATuple r :: answers t'
  | EInsert _ :: t' => answers t'
  end.

(** The one order in which things can happen in a complete run. *)
Definition schedule : list kind :=
  [KConnect; KRequest; KRequest; KRequest;
   KInsert; KInsert; KInsert; KInsert; KInsert; KInsert].

(** [straight n p]: no path through [p] is longer than [n] steps. *)
Inductive straight {L : ClientLibrary} {R : Type} : nat -> prog R -> Prop :=
| straight_ret n r : straight n (Ret r)
| straight_call n X (c : call X) k :
    (forall x, straight n (k x)) -> straight (S n) (Call c k)
| straight_insert n o k : straight n k -> straight (S n) (Insert o k).

(** A world whose calls all come back, with a value or an exception. *)
Definition responsive {L : ClientLibrary} (w : world) : Prop :=
  forall X (c : call X) (s : wstate w), fst (respond w X c s) <> Blocks.

(** The runs [main] can have, one constructor for each place where it
    can stop: at a call that throws or blocks, or at its end. *)
Inductive main_execution {L : ClientLibrary} : execution -> Prop :=
| connect_throws e :
    main_execution (mkExecution [EConnect (Throws e)] (Terminated e))
| connect_blocks :
    main_execution (mkExecution [EConnect Blocks] Hung)
| active_vessel_throws conn e :
    main_execution
      (mkExecution [EConnect (Returns conn);
                    EActiveVessel (mkSpaceCenter conn) (Throws e)]
                   (Terminated e))
| active_vessel_blocks conn :
    main_execution
      (mkExecution [EConnect (Returns conn);
                    EActiveVessel (mkSpaceCenter conn) Blocks]
                   Hung)
| flight_throws conn vessel e :
    main_execution
      (mkExecution [EConnect (Returns conn);
                    EActiveVessel (mkSpaceCenter conn) (Returns vessel);
                    EFlight vessel (Throws e)]
                   (Terminated e))
| flight_blocks conn vessel :
    main_execution
      (mkExecution [EConnect (Returns conn);
                    EActiveVessel (mkSpaceCenter conn) (Returns vessel);
                    EFlight vessel Blocks]
                   Hung)
| prograde_throws conn vessel fl e :
    main_execution
      (mkExecution [EConnect (Returns conn);
                    EActiveVessel (mkSpaceCenter conn) (Returns vessel);
                    EFlight vessel (Returns fl);
                    EPrograde fl (Throws e)]
                   (Terminated e))
| prograde_blocks conn vessel fl :
    main_execution
      (mkExecution [EConnect (Returns conn);
                    EActiveVessel (mkSpaceCenter conn) (Returns vessel);
                    EFlight vessel (Returns fl);
                    EPrograde fl Blocks]
                   Hung)
| main_returns conn vessel fl v :
    main_execution
      (mkExecution [EConnect (Returns conn);
                    EActiveVessel (mkSpaceCenter conn) (Returns vessel);
                    EFlight vessel (Returns fl);
                    EPrograde fl (Returns v);
                    EInsert (put_double (get0 v)); EInsert (put_string " ");
                    EInsert (put_double (get1 v)); EInsert (put_string " ");
                    EInsert (put_double (get2 v)); EInsert endl]
                   (Exited 0)).

(** The library functions [main] calls, and which of them a trace shows
    being called, in order. *)
Inductive callee : Type :=
| fn_connect
| fn_active_vessel
| fn_flight
| fn_prograde.

Fixpoint callees {L : ClientLibrary} (t : list event) : list callee :=
  match t with
  | [] => []
  | EConnect _ :: t' => fn_connect :: callees t'
  | EActiveVessel _ _ :: t' => fn_active_vessel :: callees t'
  | EFlight _ _ :: t' => fn_flight :: callees t'
  | EPrograde _ _ :: t' => fn_prograde :: callees t'
  | EInsert _ :: t' => callees t'
  end.

(** A call that did not come back. *)
Definition stuck {A : Type} {L : ClientLibrary} (r : reply A) : bool :=
  match r with Blocks => true | _ => false end.

Definition blocked {L : ClientLibrary} (ev : event) : bool :=
  match ev with
  | EConnect r => stuck r
  | EActiveVessel _ r => stuck r
  | EFlight _ r => stuck r
  | EPrograde _ r => stuck r
  | EInsert _ => false
  end.




(** The vector among the answers of a run, if the request for it came
    back with one. *)
Fixpoint fetched {L : ClientLibrary} (a : list answer) : option tuple3 :=
  match a with
  | [] => None
  | ATuple (Returns v) :: _ => Some v
  | _ :: a' => fetched a'
  end.

End Program.

(* ===================================================================== *)
(** ** Some concrete environments                                         *)
(* ===================================================================== *)

Module Demo.
Import Program.

(** Remote objects as the numbers the server knows them by, exceptions
    as their message. *)
#[local] Instance lib : ClientLibrary :=
  {| Client := N; Vessel := N; Flight := N; exception := string |}.

(** A server with one vessel in flight whose prograde vector is [v]. *)
Definition serving (v : tuple3) : @world lib :=
  mkWorld unit tt
    (fun X c s =>
       match c in call T return reply T * unit with
       | connect => (Returns 1%N, s)
       | active_vessel _ => (Returns 7%N, s)
       | flight vessel => (Returns (vessel + 1)%N, s)
       | prograde _ => (Returns v, s)
       end).

(** The same server behind a network that counts the calls it carries
    and numbers the connection after them. *)
Definition metered (v : tuple3) : @world lib :=
  mkWorld nat 0%nat
    (fun X c n =>
       match c in call T return reply T * nat with
       | connect => (Returns 1%N, S n)
       | active_vessel _ => (Returns 7%N, S n)
       | flight vessel => (Returns (vessel + 1)%N, S n)
       | prograde _ => (Returns v, S n)
       end).


(** A server in a scene without a vessel: the first request fails. *)
Definition no_vessel : @world lib :=
  mkWorld unit tt
    (fun X c s =>
       match c in call T return reply T * unit with
       | connect => (Returns 1%N, s)
       | active_vessel _ => (Throws "no active vessel", s)
       | flight vessel => (Throws "no such vessel", s)
       | prograde _ => (Throws "no such flight", s)
       end).

(** A server that stops answering after the flight has been handed out. *)
Definition stalled : @world lib :=
  mkWorld unit tt
    (fun X c s =>
       match c in call T return reply T * unit with
       | connect => (Returns 1%N, s)
       | active_vessel _ => (Returns 7%N, s)
       | flight vessel => (Returns (vessel + 1)%N, s)
       | prograde _ => (Blocks, s)
       end).

(** A server that hands out other object numbers for the same vessel. *)
Definition renumbered (v : tuple3) : @world lib :=
  mkWorld unit tt
    (fun X c s =>
       match c in call T return reply T * unit with
       | connect => (Returns 42%N, s)
       | active_vessel _ => (Returns 100%N, s)
       | flight vessel => (Returns (2 * vessel)%N, s)
       | prograde _ => (Returns v, s)
       end).

(** Two directions a vessel may be heading in: along the first axis,
    and off it by the last bit of the first component. *)
Definition ahead : tuple3 := (1, 0, 0)%float.
Definition nearly_ahead : tuple3 := (0x1.0000000000001p+0, 0, 0)%float.

Definition north_east : tuple3 := (0.5, -0.5, 0.75)%float.


End Demo.

(* ===================================================================== *)
(** ** Properties                                                         *)
(* ===================================================================== *)

Import Program.

(** *** The formatter on a few values *)

Example put_double_integral : Ostream.put_double 100000%float = "100000".
Proof. vm_compute. reflexivity. Qed.

Example put_double_million : Ostream.put_double 1000000%float = "1e+06".
Proof. vm_compute. reflexivity. Qed.

Example put_double_small : Ostream.put_double 0.0001220703125%float = "0.00012207".
Proof. vm_compute. reflexivity. Qed.

Example put_double_tiny : Ostream.put_double 0x1p-20%float = "9.53674e-07".
Proof. vm_compute. reflexivity. Qed.

Example put_double_carry : Ostream.put_double 999999.5%float = "1e+06".
Proof. vm_compute. reflexivity. Qed.

Example put_double_tie_even : Ostream.put_double 123456.5%float = "123456".
Proof. vm_compute. reflexivity. Qed.

Example put_double_tie_odd : Ostream.put_double 123457.5%float = "123458".
Proof. vm_compute. reflexivity. Qed.

Example put_double_negative : Ostream.put_double (-0.75)%float = "-0.75".
Proof. vm_compute. reflexivity. Qed.

Example put_double_neg_zero : Ostream.put_double (-0)%float = "-0".
Proof. vm_compute. reflexivity. Qed.

Example put_double_inf : Ostream.put_double neg_infinity = "-inf".
Proof. vm_compute. reflexivity. Qed.

(** Rounding goes to a nearest integer: the result is off by at most
    half a unit. *)
Lemma round_half_even_nearest (n d : Z) :
  0 < d -> 2 * Z.abs (Ostream.round_half_even n d * d - n) <= d.
Proof.
  intros Hd. unfold Ostream.round_half_even.
  pose proof (Z.div_mod n d ltac:(lia)) as Hdiv.
  pose proof (Z.mod_pos_bound n d Hd) as Hmod.
  destruct (Z.compare_spec (2 * (n mod d)) d) as [Heq | Hlt | Hgt];
    [ destruct (Z.even (n / d)) | | ]; nia.
Qed.

(** On a tie the even neighbour is taken. *)
Lemma round_half_even_tie (n d : Z) :
  0 < d -> 2 * (n mod d) = d -> Z.even (Ostream.round_half_even n d) = true.
Proof.
  intros Hd Htie. unfold Ostream.round_half_even.
  rewrite Htie, Z.compare_refl.
  destruct (Z.even (n / d)) eqn:Hev; [ exact Hev | ].
  rewrite Z.even_add, Hev. reflexivity.
Qed.

(** Stripping trailing zeros leaves nothing to strip. *)
Lemma strip_zeros_idempotent (s : string) :
  Ostream.strip_zeros (Ostream.strip_zeros s) = Ostream.strip_zeros s.
Proof.
  induction s as [ | c r IH ]; [ reflexivity | ].
  cbn [Ostream.strip_zeros].
  destruct (Ostream.strip_zeros r) as [ | c' r' ] eqn:Hr.
  - destruct (Ascii.eqb c "0") eqn:Hc; [ reflexivity | ].
    cbn [Ostream.strip_zeros]. rewrite Hc. reflexivity.
  - cbn [Ostream.strip_zeros] in *. rewrite IH. reflexivity.
Qed.

(** *** The shape of a run *)

Section Runs.

Context {L : ClientLibrary}.

(** One step of the interpreter at a call, by the answer it gets. *)
Lemma exec_call (w : world) X (c : call X) (k : X -> prog Z) (s : wstate w) :
  exec w (Call c k) s =
    match fst (respond w X c s) with
    | Returns a => after (observe c (Returns a)) (exec w (k a) (snd (respond w X c s)))
    | Throws e => mkExecution [observe c (Throws e)] (Terminated e)
    | Blocks => mkExecution [observe c Blocks] Hung
    end.
Proof.
  simpl. destruct (respond w X c s) as [r s']. destruct r; reflexivity.
Qed.

Lemma exec_insert (w : world) o (k : prog Z) (s : wstate w) :
  exec w (Insert o k) s = after (EInsert o) (exec w k s).
Proof. reflexivity. Qed.

(** Whatever the world, a run of [main] has one of the nine shapes. *)
Lemma run_main_shape (w : world) : main_execution (run w main).
Proof.
  unfold run, main. cbn [bind invoke cout].
  rewrite exec_call.
  destruct (respond w _ connect (winit w)) as [[conn|e|] s1]; cbn [fst snd];
    [ | constructor | constructor ].
  rewrite exec_call.
  destruct (respond w _ (active_vessel (mkSpaceCenter conn)) s1)
    as [[vessel|e|] s2]; cbn [fst snd]; [ | constructor | constructor ].
  rewrite exec_call.
  destruct (respond w _ (flight vessel) s2) as [[fl|e|] s3]; cbn [fst snd];
    [ | constructor | constructor ].
  rewrite exec_call.
  destruct (respond w _ (prograde fl) s3) as [[v|e|] s4]; cbn [fst snd];
    [ | constructor | constructor ].
  cbn. constructor.
Qed.

End Runs.

(** Three tactics for the proofs below: [shapes w] splits on how the run
    against [w] went; [absurd_membership] closes a case whose trace cannot
    hold the event a hypothesis says it holds; [peel H pre] walks through
    the ways a given trace can be cut as [pre ++ ev :: post]. *)
Ltac shapes w :=
  let Hs := fresh "Hshape" in
  pose proof (run_main_shape w) as Hs; inversion Hs; clear Hs.

Ltac absurd_membership :=
  match goal with
  | H : In _ _ |- _ =>
      solve [ cbn in H; repeat (destruct H as [H | H]; try discriminate H);
              try contradiction ]
  end.

Ltac peel H pre :=
  repeat (destruct pre as [ | ? pre ]; cbn in H;
          [ inversion H; subst; clear H | injection H as ? H; subst ]);
  try solve [ destruct pre; discriminate H ].

Ltac on_run w :=
  shapes w;
  match goal with H : _ = run w main |- _ => try rewrite <- H in * end.

Section Claims.

Context {L : ClientLibrary}.

(** *** What is printed *)

(** Once the vector has been fetched, its three components are inserted
    as they are, with the separators between them. *)
Lemma fetched_vector_is_inserted (w : world) (fl : Flight) (v : tuple3) :
  In (EPrograde fl (Returns v)) (trace (run w main)) ->
  inserted (trace (run w main)) =
    [put_double (get0 v); put_string " "; put_double (get1 v); put_string " ";
     put_double (get2 v); endl].
Proof.
  intros Hin. on_run w; try absurd_membership.
  cbn in Hin.
  repeat (destruct Hin as [Hin | Hin]; try discriminate Hin); try contradiction.
  injection Hin as _ Hv. subst. reflexivity.
Qed.

Lemma text_of_vector (a b c : float) :
  text [put_double a; put_string " "; put_double b; put_string " ";
        put_double c; endl] =
    (Ostream.put_double a ++ " " ++ Ostream.put_double b ++ " "
     ++ Ostream.put_double c ++ newline)%string.
Proof. reflexivity. Qed.

(** C1.  In every run in which the request for the prograde vector comes
    back with [(a, b, c)] (so the server was reached and every earlier
    call succeeded), the insertions into standard output are exactly: [a],
    a space, [b], a space, [c], end of line, with the three components as
    they came from the call; the text on standard output is the three
    rendered components separated by single spaces and closed by a
    newline. *)
Theorem prints_the_prograde_vector (w : world) (fl : Flight) (a b c : float) :
  In (EPrograde fl (Returns (a, b, c))) (trace (run w main)) ->
  inserted (trace (run w main)) =
    [put_double a; put_string " "; put_double b; put_string " "; put_double c; endl]
  /\ stdout (run w main) =
       (Ostream.put_double a ++ " " ++ Ostream.put_double b ++ " "
        ++ Ostream.put_double c ++ newline)%string.
Proof.
  intros Hin. unfold stdout.
  rewrite (fetched_vector_is_inserted w fl (a, b, c) Hin). cbn [get0 get1 get2 fst snd].
  split; [ reflexivity | apply text_of_vector ].
Qed.

(** *** Exit status *)

(** C4.  In every run in which the connection is opened and the request
    for the vector comes back with a value, [main] returns and the exit
    status is 0. *)
Theorem exit_status_zero (w : world) (conn : Client) (fl : Flight) (v : tuple3) :
  In (EConnect (Returns conn)) (trace (run w main)) ->
  In (EPrograde fl (Returns v)) (trace (run w main)) ->
  status (run w main) = Exited 0.
Proof.
  intros _ Hin.
  on_run w; try absurd_membership.
  reflexivity.
Qed.

(** *** Connections and requests *)

(** C2, as the code has it.  In every run that ends with [main]
    returning, exactly one connection is opened and exactly three
    requests go over it, in this order: the active vessel of the space
    center built on that connection, the flight of the vessel that came
    back, the prograde vector of the flight that came back.  Only the
    last one returns the vector. *)
Theorem one_connection_three_requests (w : world) (code : Z) :
  status (run w main) = Exited code ->
  exists conn vessel fl v,
    connections (trace (run w main)) = [EConnect (Returns conn)]
    /\ requests (trace (run w main)) =
         [EActiveVessel (mkSpaceCenter conn) (Returns vessel);
          EFlight vessel (Returns fl);
          EPrograde fl (Returns v)].
Proof.
  intros Hst. on_run w; try discriminate Hst.
  exists conn, vessel, fl, v. split; reflexivity.
Qed.

(** *** Failures *)



(** *** Order of events *)

(** C5.  Every run goes through one and the same sequence and may only
    stop early: its events are, by kind, an initial part of [schedule]
    (the connection, then the requests, then the insertions, and nothing
    else).  Whenever a request is issued, the connection has been opened
    before; whenever something is inserted into standard output, the
    request for the vector has come back before and only insertions
    follow. *)
Theorem linear_sequence (w : world) :
  (exists rest, (map kind_of (trace (run w main)) ++ rest)%list = schedule)
  /\ (forall pre ev post,
        trace (run w main) = (pre ++ ev :: post)%list ->
        is_request ev = true ->
        exists conn, In (EConnect (Returns conn)) pre)
  /\ (forall pre ev post,
        trace (run w main) = (pre ++ ev :: post)%list ->
        is_insert ev = true ->
        (exists fl v, In (EPrograde fl (Returns v)) pre)
        /\ requests post = []
        /\ forallb is_insert post = true).
Proof.
  split; [ | split ].
  - on_run w; cbn; unfold schedule; eexists; reflexivity.
  - intros pre ev post Hcut Hreq.
    on_run w; peel Hcut pre; try discriminate Hreq;
      exists conn; cbn; auto.
  - intros pre ev post Hcut Hins.
    on_run w; peel Hcut pre; try discriminate Hins;
      (split; [ exists fl, v; cbn; auto 6 | split; reflexivity ]).
Qed.

(** *** Termination *)

(** A program that is [straight n], run against a world whose calls all
    come back, ends after at most [n] events. *)
Lemma straight_ends (w : world) (n : nat) (p : prog Z) :
  straight n p -> responsive w ->
  forall s : wstate w,
    status (exec w p s) <> Hung /\ (List.length (trace (exec w p s)) <= n)%nat.
Proof.
  intros Hp Hw. induction Hp as [n r | n X c k _ IH | n o k _ IH]; intros s.
  - cbn. split; [ discriminate | lia ].
  - rewrite exec_call. specialize (Hw X c s).
    destruct (fst (respond w X c s)) as [a | e | ].
    + destruct (IH a (snd (respond w X c s))) as [Hst Hlen].
      cbn. split; [ exact Hst | lia ].
    + cbn. split; [ discriminate | lia ].
    + contradiction.
  - rewrite exec_insert. destruct (IH s) as [Hst Hlen].
    cbn. split; [ exact Hst | lia ].
Qed.

(** [main] has no loop and does not call itself: ten steps at most. *)
Lemma main_straight : straight 10 (@main L).
Proof.
  unfold main. cbn [bind invoke cout].
  repeat (first [ apply straight_call; intros ? | apply straight_insert ]).
  apply straight_ret.
Qed.

(** C8.  [main] is a straight line of at most ten steps, so against an
    environment in which the attempt to connect and every request come
    back (with a value or with an exception), the run is over after at
    most ten events: [main] has returned, or the process has been
    terminated by an exception; it is not left hanging. *)
Theorem main_terminates (w : world) :
  responsive w ->
  straight 10 main
  /\ (List.length (trace (run w main)) <= 10)%nat
  /\ ((exists code, status (run w main) = Exited code)
      \/ (exists e, status (run w main) = Terminated e)).
Proof.
  intros Hw.
  destruct (straight_ends w 10 main main_straight Hw (winit w)) as [Hst Hlen].
  fold (run w main) in Hst, Hlen.
  split; [ exact main_straight | split; [ exact Hlen | ] ].
  destruct (status (run w main)) as [code | e | ].
  - left. exists code. reflexivity.
  - right. exists e. reflexivity.
  - contradiction.
Qed.

End Claims.

(** *** Determinism *)

(** C7.  The text on standard output is determined by what the service
    returned, and by one returned value only, the vector.  Two runs,
    against any two environments and even two client libraries, whose
    answers hold the same vector (or both hold none) make the same
    insertions and leave the same text; so, all the more, do two runs
    whose calls are all answered alike.  Connection, vessel and flight
    may differ, and so may the call at which a run without vector
    stopped.  [main] takes no argument and calls nothing but the client
    library, so no other input is there to depend on. *)
Theorem output_determined_by_answers
    (L1 L2 : ClientLibrary) (w1 : @world L1) (w2 : @world L2) :
  fetched (answers (trace (run w1 main)))
    = fetched (answers (trace (run w2 main))) ->
  inserted (trace (run w1 main)) = inserted (trace (run w2 main))
  /\ stdout (run w1 main) = stdout (run w2 main).
Proof.
  intros Hv. unfold stdout.
  on_run w1; on_run w2; cbn in Hv; try discriminate Hv;
    try (split; reflexivity).
  injection Hv as ->. split; reflexivity.
Qed.

(** *** Precision of the printed text *)

(** The two demonstration vectors differ. *)
Lemma ahead_differs : Demo.ahead <> Demo.nearly_ahead.
Proof.
  unfold Demo.ahead, Demo.nearly_ahead. intros Heq.
  apply (f_equal (fun v => Prim2SF (get0 v))) in Heq.
  vm_compute in Heq. discriminate Heq.
Qed.

(** C6.  The components are rendered by the stream's default conversion,
    which keeps six significant digits; the text therefore does not
    determine the vector.  There are two different vectors (here
    [Demo.ahead] and [Demo.nearly_ahead], which differ in the last bit
    of the first component) such that any two runs fetching the one and
    the other leave the same bytes on standard output; with a server
    that serves them, both runs print "1 0 0" and a newline. *)
Theorem printed_text_conflates_vectors :
  exists v v' : tuple3,
    v <> v'
    /\ stdout (run (Demo.serving v) main) = ("1 0 0" ++ newline)%string
    /\ stdout (run (Demo.serving v') main) = ("1 0 0" ++ newline)%string
    /\ (forall (L : ClientLibrary) (w w' : world) (fl fl' : Flight),
          In (EPrograde fl (Returns v)) (trace (run w main)) ->
          In (EPrograde fl' (Returns v')) (trace (run w' main)) ->
          stdout (run w main) = stdout (run w' main)).
Proof.
  exists Demo.ahead, Demo.nearly_ahead.
  split; [ exact ahead_differs | ].
  split; [ vm_compute; reflexivity | ].
  split; [ vm_compute; reflexivity | ].
  intros L w w' fl fl' Hv Hv'. unfold stdout.
  rewrite (fetched_vector_is_inserted w fl _ Hv).
  rewrite (fetched_vector_is_inserted w' fl' _ Hv').
  vm_compute. reflexivity.
Qed.

(* ===================================================================== *)
(** ** The properties on concrete runs                                    *)
(* ===================================================================== *)

#[local] Existing Instance Demo.lib.

Lemma prints_the_prograde_vector_witness :
  In (EPrograde 8%N (Returns Demo.north_east))
     (trace (run (Demo.serving Demo.north_east) main))
  /\ stdout (run (Demo.serving Demo.north_east) main)
     = ("0.5 -0.5 0.75" ++ newline)%string.
Proof.
  assert (Hin : In (EPrograde 8%N (Returns Demo.north_east))
                   (trace (run (Demo.serving Demo.north_east) main)))
    by (cbn; auto 6).
  split; [ exact Hin | ].
  destruct (prints_the_prograde_vector
              (Demo.serving Demo.north_east) 8%N 0.5 (-0.5) 0.75 Hin)
    as [_ Hout].
  rewrite Hout. vm_compute. reflexivity.
Defined.

Lemma exit_status_zero_witness :
  In (EConnect (Returns 1%N))
     (trace (run (Demo.serving Demo.north_east) main))
  /\ In (EPrograde 8%N (Returns Demo.north_east))
        (trace (run (Demo.serving Demo.north_east) main))
  /\ status (run (Demo.serving Demo.north_east) main) = Exited 0.
Proof.
  assert (Hc : In (EConnect (Returns 1%N))
                  (trace (run (Demo.serving Demo.north_east) main)))
    by (cbn; auto).
  assert (Hp : In (EPrograde 8%N (Returns Demo.north_east))
                  (trace (run (Demo.serving Demo.north_east) main)))
    by (cbn; auto 6).
  split; [ exact Hc | split; [ exact Hp | ] ].
  exact (exit_status_zero (Demo.serving Demo.north_east) 1%N 8%N
           Demo.north_east Hc Hp).
Defined.

(** C2 as the spec words it fails: a run that ends with [main] returning
    opens one connection but carries three requests, not one. *)
Lemma single_request_counterexample :
  status (run (Demo.serving Demo.north_east) main) = Exited 0
  /\ List.length (connections (trace (run (Demo.serving Demo.north_east) main))) = 1%nat
  /\ requests (trace (run (Demo.serving Demo.north_east) main)) =
       [EActiveVessel (mkSpaceCenter 1%N) (Returns 7%N);
        EFlight 7%N (Returns 8%N);
        EPrograde 8%N (Returns Demo.north_east)]
  /\ List.length (requests (trace (run (Demo.serving Demo.north_east) main))) <> 1%nat.
Proof.
  split; [ reflexivity | split; [ reflexivity | split; [ reflexivity | ] ] ].
  cbn. discriminate.
Qed.

Lemma one_connection_three_requests_witness :
  status (run (Demo.serving Demo.north_east) main) = Exited 0
  /\ exists conn vessel fl v,
       connections (trace (run (Demo.serving Demo.north_east) main))
         = [EConnect (Returns conn)]
       /\ requests (trace (run (Demo.serving Demo.north_east) main))
            = [EActiveVessel (mkSpaceCenter conn) (Returns vessel);
               EFlight vessel (Returns fl);
               EPrograde fl (Returns v)].
Proof.
  split; [ reflexivity | ].
  apply (one_connection_three_requests (Demo.serving Demo.north_east) 0).
  reflexivity.
Defined.



Lemma output_determined_by_answers_witness :
  fetched (answers (trace (run (Demo.serving Demo.north_east) main)))
    = fetched (answers (trace (run (Demo.renumbered Demo.north_east) main)))
  /\ answers (trace (run (Demo.serving Demo.north_east) main))
     <> answers (trace (run (Demo.renumbered Demo.north_east) main))
  /\ stdout (run (Demo.serving Demo.north_east) main)
     = stdout (run (Demo.renumbered Demo.north_east) main).
Proof.
  assert (Hv : fetched (answers (trace (run (Demo.serving Demo.north_east) main)))
               = fetched (answers (trace (run (Demo.renumbered Demo.north_east) main))))
    by reflexivity.
  split; [ exact Hv | split; [ cbn; discriminate | ] ].
  destruct (output_determined_by_answers Demo.lib Demo.lib
              (Demo.serving Demo.north_east) (Demo.renumbered Demo.north_east) Hv)
    as [_ Hout].
  exact Hout.
Defined.

Lemma serving_responsive (v : tuple3) : responsive (Demo.serving v).
Proof. intros X c s. destruct c; cbn; discriminate. Defined.

Lemma main_terminates_witness :
  responsive (Demo.serving Demo.north_east)
  /\ (List.length (trace (run (Demo.serving Demo.north_east) main)) <= 10)%nat
  /\ ((exists code, status (run (Demo.serving Demo.north_east) main) = Exited code)
      \/ (exists e, status (run (Demo.serving Demo.north_east) main) = Terminated e)).
Proof.
  split; [ exact (serving_responsive Demo.north_east) | ].
  destruct (main_terminates (Demo.serving Demo.north_east)
              (serving_responsive Demo.north_east)) as (_ & Hlen & Hend).
  split; [ exact Hlen | exact Hend ].
Defined.

(* ===================================================================== *)
(** ** Further properties of the printed line                             *)
(* ===================================================================== *)

(** *** The rendering of a component is one field *)

Lemma blank_free_app (s t : string) :
  blank_free (s ++ t) = blank_free s && blank_free t.
Proof.
  induction s as [ | c r IH ]; [ reflexivity | ].
  cbn. rewrite IH. apply andb_assoc.
Qed.

Lemma blank_free_substring (s : string) (n m : nat) :
  blank_free s = true -> blank_free (substring n m s) = true.
Proof.
  revert n m. induction s as [ | c r IH ]; intros n m Hs.
  - destruct n, m; reflexivity.
  - cbn in Hs. apply andb_prop in Hs. destruct Hs as [Hc Hr].
    destruct n as [ | n ]; cbn.
    + destruct m as [ | m ]; [ reflexivity | ].
      cbn. rewrite Hc. apply IH. exact Hr.
    + apply IH. exact Hr.
Qed.

Lemma blank_free_strip_zeros (s : string) :
  blank_free s = true -> blank_free (Ostream.strip_zeros s) = true.
Proof.
  induction s as [ | c r IH ]; intros Hs; [ reflexivity | ].
  cbn in Hs. apply andb_prop in Hs. destruct Hs as [Hc Hr].
  cbn [Ostream.strip_zeros]. specialize (IH Hr).
  destruct (Ostream.strip_zeros r) as [ | c' r' ].
  - destruct (Ascii.eqb c "0"); [ reflexivity | ].
    cbn. rewrite Hc. reflexivity.
  - cbn [blank_free]. rewrite Hc. exact IH.
Qed.

Lemma blank_free_zeros (n : nat) : blank_free (Ostream.zeros n) = true.
Proof. induction n as [ | n IH ]; [ reflexivity | exact IH ]. Qed.

Lemma blank_free_digits (d : Decimal.uint) :
  blank_free (NilEmpty.string_of_uint d) = true.
Proof. induction d; cbn; assumption || reflexivity. Qed.

Lemma blank_free_dec (n : Z) : blank_free (Ostream.dec n) = true.
Proof.
  unfold Ostream.dec, NilZero.string_of_uint.
  destruct (N.to_uint (Z.to_N n)); try reflexivity; apply blank_free_digits.
Qed.

Lemma dec_nonempty (n : Z) : Ostream.dec n <> "".
Proof.
  unfold Ostream.dec, NilZero.string_of_uint.
  destruct (N.to_uint (Z.to_N n)); cbn; discriminate.
Qed.

Lemma blank_free_with_point (ip fp : string) :
  blank_free ip = true -> blank_free fp = true ->
  blank_free (Ostream.with_point ip fp) = true.
Proof.
  intros Hi Hf. unfold Ostream.with_point.
  destruct fp as [ | c r ]; [ exact Hi | ].
  rewrite !blank_free_app, Hi, Hf. reflexivity.
Qed.

Lemma with_point_nonempty (ip fp : string) :
  ip <> "" -> Ostream.with_point ip fp <> "".
Proof.
  intros Hi. unfold Ostream.with_point.
  destruct fp; [ exact Hi | ].
  destruct ip; [ contradiction | discriminate ].
Qed.

Lemma app_nonempty_r (s t : string) : t <> "" -> (s ++ t)%string <> "".
Proof.
  intros Ht. destruct s; [ exact Ht | discriminate ].
Qed.

Lemma app_nonempty_l (s t : string) : s <> "" -> (s ++ t)%string <> "".
Proof.
  intros Hs. destruct s; [ contradiction | discriminate ].
Qed.

Lemma blank_free_style_f (P X : Z) (ds : string) :
  blank_free ds = true -> blank_free (Ostream.style_f P ds X) = true.
Proof.
  intros Hds. unfold Ostream.style_f.
  destruct (0 <=? X); apply blank_free_with_point;
    try reflexivity;
    try (apply blank_free_strip_zeros);
    try (apply blank_free_substring; exact Hds).
  rewrite blank_free_app, blank_free_zeros, Hds. reflexivity.
Qed.

Lemma style_f_nonempty (P X : Z) (ds : string) :
  ds <> "" -> Ostream.style_f P ds X <> "".
Proof.
  intros Hds. unfold Ostream.style_f.
  destruct (0 <=? X) eqn:HX; apply with_point_nonempty; [ | discriminate ].
  apply Z.leb_le in HX.
  destruct ds as [ | c r ]; [ contradiction | ].
  replace (Z.to_nat (X + 1)) with (S (Z.to_nat X)) by lia.
  discriminate.
Qed.

Lemma blank_free_style_e (P X : Z) (ds : string) :
  blank_free ds = true -> blank_free (Ostream.style_e P ds X) = true.
Proof.
  intros Hds. unfold Ostream.style_e, Ostream.pad2.
  rewrite !blank_free_app.
  rewrite blank_free_with_point;
    [ | apply blank_free_substring; exact Hds
      | apply blank_free_strip_zeros, blank_free_substring; exact Hds ].
  destruct (X <? 0);
    destruct (String.length (Ostream.dec (Z.abs X)) <? 2)%nat;
    rewrite ?blank_free_app, blank_free_dec; reflexivity.
Qed.

Lemma style_e_nonempty (P X : Z) (ds : string) : Ostream.style_e P ds X <> "".
Proof.
  unfold Ostream.style_e. apply app_nonempty_r. discriminate.
Qed.

(** Whatever the value and the precision, the conversion writes at least
    one character and neither a space nor a newline. *)
Lemma format_g_field (p : Z) (x : spec_float) :
  Ostream.format_g p x <> "" /\ blank_free (Ostream.format_g p x) = true.
Proof.
  unfold Ostream.format_g.
  destruct x as [ s | s | | s m e ].
  - split; [ apply app_nonempty_r; discriminate | destruct s; reflexivity ].
  - split; [ apply app_nonempty_r; discriminate | destruct s; reflexivity ].
  - split; [ discriminate | reflexivity ].
  - destruct (Ostream.sig_digits _ _ _) as [q X].
    destruct ((-4 <=? X) && (X <? (if p =? 0 then 1 else p))).
    + split.
      * apply app_nonempty_r, style_f_nonempty, dec_nonempty.
      * rewrite blank_free_app, blank_free_style_f by apply blank_free_dec.
        destruct s; reflexivity.
    + split.
      * apply app_nonempty_r, style_e_nonempty.
      * rewrite blank_free_app, blank_free_style_e by apply blank_free_dec.
        destruct s; reflexivity.
Qed.

Lemma put_double_field (d : float) :
  Ostream.put_double d <> "" /\ blank_free (Ostream.put_double d) = true.
Proof. apply format_g_field. Qed.

(** *** Reading fields back *)

Lemma string_app_empty_r (s : string) : (s ++ "")%string = s.
Proof. induction s as [ | c r IH ]; [ reflexivity | cbn; rewrite IH; reflexivity ]. Qed.

Lemma string_app_assoc (s t u : string) :
  ((s ++ t) ++ u)%string = (s ++ (t ++ u))%string.
Proof. induction s as [ | c r IH ]; [ reflexivity | cbn; rewrite IH; reflexivity ]. Qed.

(** A run of non-blank characters goes to the field being read. *)
Lemma fields_from_field (f acc rest : string) :
  blank_free f = true ->
  fields_from acc (f ++ rest) = fields_from (acc ++ f) rest.
Proof.
  revert acc. induction f as [ | c r IH ]; intros acc Hf.
  - cbn. rewrite string_app_empty_r. reflexivity.
  - cbn in Hf. apply andb_prop in Hf. destruct Hf as [Hc Hr].
    apply negb_true_iff in Hc. cbn. rewrite Hc.
    rewrite (IH _ Hr), string_app_assoc. reflexivity.
Qed.

(** Three fields, two spaces and a newline read back as the fields. *)
Lemma fields_of_line (f1 f2 f3 : string) :
  f1 <> "" -> blank_free f1 = true ->
  f2 <> "" -> blank_free f2 = true ->
  f3 <> "" -> blank_free f3 = true ->
  fields (f1 ++ " " ++ f2 ++ " " ++ f3 ++ newline) = [f1; f2; f3].
Proof.
  intros N1 B1 N2 B2 N3 B3. unfold fields.
  rewrite (fields_from_field f1 "" _ B1). cbn.
  rewrite (fields_from_field f2 "" _ B2). cbn.
  rewrite (fields_from_field f3 "" _ B3). cbn.
  destruct f1; [ contradiction | ].
  destruct f2; [ contradiction | ].
  destruct f3; [ contradiction | ].
  reflexivity.
Qed.

Section Further.

Context {L : ClientLibrary}.

(** X5.  When the request for the vector has come back with [(a, b, c)],
    the text on standard output, read back field by field (fields being
    separated by spaces and newlines), is exactly the three rendered
    components, in order: no component is empty or contains a blank, so
    none is lost, split or merged with its neighbour. *)
Theorem output_reads_back_as_three_fields
    (w : world) (fl : Flight) (a b c : float) :
  In (EPrograde fl (Returns (a, b, c))) (trace (run w main)) ->
  fields (stdout (run w main)) =
    [Ostream.put_double a; Ostream.put_double b; Ostream.put_double c].
Proof.
  intros Hin. unfold stdout.
  rewrite (fetched_vector_is_inserted w fl (a, b, c) Hin).
  cbn [get0 get1 get2 fst snd]. rewrite text_of_vector.
  destruct (put_double_field a) as [Na Ba].
  destruct (put_double_field b) as [Nb Bb].
  destruct (put_double_field c) as [Nc Bc].
  apply fields_of_line; assumption.
Qed.

(** *** All or nothing *)

(** X1.  Standard output is never left with part of the line.  Either
    nothing at all has been inserted, and then [main] has not returned;
    or the request for the vector came back with some [v], exactly the
    six insertions of the line for [v] were made, and [main] returned 0. *)
Theorem all_or_nothing_output (w : world) :
  (inserted (trace (run w main)) = []
   /\ stdout (run w main) = ""
   /\ forall code, status (run w main) <> Exited code)
  \/ (exists fl v,
        In (EPrograde fl (Returns v)) (trace (run w main))
        /\ inserted (trace (run w main)) = vector_line v
        /\ status (run w main) = Exited 0).
Proof.
  unfold stdout.
  on_run w;
    try (left; repeat split; try reflexivity; intros code; discriminate).
  right. exists fl, v. repeat split; cbn; auto 6.
Qed.

(** X7.  [main] never returns a status other than 0, and it returns (the
    process exits instead of being terminated or hanging) exactly when
    the request for the vector has come back with a value. *)
Theorem exits_exactly_when_fetched (w : world) :
  (forall code, status (run w main) = Exited code -> code = 0)
  /\ (status (run w main) = Exited 0
      <-> exists fl v, In (EPrograde fl (Returns v)) (trace (run w main))).
Proof.
  split.
  - intros code Hst. on_run w; try discriminate Hst.
    injection Hst as <-. reflexivity.
  - split.
    + intros Hst. on_run w; try discriminate Hst.
      exists fl, v. cbn. auto 6.
    + intros (fl0 & v0 & Hin). on_run w; try absurd_membership. reflexivity.
Qed.

(** *** Calls that do not come back *)

(** X2.  When a call of a run never comes back (the attempt to connect,
    or any of the requests), it is the last event of the run and every
    call before it returned a value; the process hangs: it neither exits
    nor is terminated; and nothing has been inserted into standard
    output. *)
Theorem blocked_call_hangs_silently (w : world) (ev : event) :
  In ev (trace (run w main)) ->
  blocked ev = true ->
  status (run w main) = Hung
  /\ (exists before,
        trace (run w main) = (before ++ [ev])%list
        /\ Forall (fun ev' => blocked ev' = false /\ failure ev' = None) before)
  /\ inserted (trace (run w main)) = []
  /\ stdout (run w main) = "".
Proof.
  intros Hin Hb. unfold stdout.
  on_run w; cbn in Hin;
    repeat (destruct Hin as [Hin | Hin]; [ subst ev; cbn in Hb | ]);
    try contradiction; try discriminate Hb;
    (split; [ reflexivity | split; [ | split; reflexivity ] ]).
  - exists []. split; [ reflexivity | constructor ].
  - exists [EConnect (Returns conn)].
    split; [ reflexivity | repeat constructor ].
  - exists [EConnect (Returns conn);
            EActiveVessel (mkSpaceCenter conn) (Returns vessel)].
    split; [ reflexivity | repeat constructor ].
  - exists [EConnect (Returns conn);
            EActiveVessel (mkSpaceCenter conn) (Returns vessel);
            EFlight vessel (Returns fl)].
    split; [ reflexivity | repeat constructor ].
Qed.

(** *** Where handles come from *)

(** X3.  In every run, complete or not, each request is made on what the
    server handed out just before: the active vessel is asked of a
    space center built on the connection that [krpc::connect] returned,
    the flight is asked of a vessel that [active_vessel] returned, and
    the prograde vector of a flight that [flight] returned.  [main]
    never makes up a handle. *)
Theorem handles_come_from_the_server (w : world) :
  (forall pre sc r post,
     trace (run w main) = (pre ++ EActiveVessel sc r :: post)%list ->
     In (EConnect (Returns (client sc))) pre)
  /\ (forall pre vessel r post,
        trace (run w main) = (pre ++ EFlight vessel r :: post)%list ->
        exists sc, In (EActiveVessel sc (Returns vessel)) pre)
  /\ (forall pre fl r post,
        trace (run w main) = (pre ++ EPrograde fl r :: post)%list ->
        exists vessel, In (EFlight vessel (Returns fl)) pre).
Proof.
  split; [ | split ].
  - intros pre sc r post Hcut.
    on_run w; peel Hcut pre; cbn; auto.
  - intros pre vessel0 r post Hcut.
    on_run w; peel Hcut pre; eexists; cbn; auto.
  - intros pre fl0 r post Hcut.
    on_run w; peel Hcut pre; eexists; cbn; auto.
Qed.

(** *** Order of the calls *)

(** X6.  In every run the library functions are called in one order:
    [connect], [active_vessel], [flight], [prograde]; the run may stop
    early, but no function is skipped and none is called twice. *)
Theorem calls_in_fixed_order (w : world) :
  (exists rest,
     (callees (trace (run w main)) ++ rest)%list =
       [fn_connect; fn_active_vessel; fn_flight; fn_prograde])
  /\ NoDup (callees (trace (run w main))).
Proof.
  split.
  - on_run w; cbn; eexists; reflexivity.
  - on_run w; cbn;
      repeat (constructor;
              [ cbn; intros Hin;
                repeat (destruct Hin as [Hin | Hin]; try discriminate Hin);
                contradiction | ]);
      constructor.
Qed.

End Further.

(** *** Handles do not show *)

(** X4.  The text on standard output depends on the vector alone: two
    runs, against any two environments and even two client libraries
    with different kinds of handles, in which the request for the vector
    comes back with the same [v], make the same insertions and leave the
    same text, whatever connection, vessel and flight they went
    through. *)
Theorem output_depends_only_on_vector
    (L1 L2 : ClientLibrary) (w1 : @world L1) (w2 : @world L2)
    (fl1 : @Flight L1) (fl2 : @Flight L2) (v : tuple3) :
  In (EPrograde fl1 (Returns v)) (trace (run w1 main)) ->
  In (EPrograde fl2 (Returns v)) (trace (run w2 main)) ->
  inserted (trace (run w1 main)) = inserted (trace (run w2 main))
  /\ stdout (run w1 main) = stdout (run w2 main).
Proof.
  intros H1 H2. unfold stdout.
  rewrite (fetched_vector_is_inserted w1 fl1 v H1).
  rewrite (fetched_vector_is_inserted w2 fl2 v H2).
  split; reflexivity.
Qed.

(* ===================================================================== *)
(** ** How long a rendered component can be                               *)
(* ===================================================================== *)

Module OstreamFacts.
Import Decimal DecimalFacts Ostream.

(** *** Decimal digits and magnitude *)

Lemma usize_nb_digits (d : uint) :
  DecimalPos.Unsigned.usize d = N.of_nat (nb_digits d).
Proof.
  induction d; cbn [DecimalPos.Unsigned.usize nb_digits];
    rewrite ?IHd, ?Nat2N.inj_succ; reflexivity.
Qed.

Lemma of_lu_upper (d : uint) :
  (DecimalPos.Unsigned.of_lu d < 10 ^ DecimalPos.Unsigned.usize d)%N.
Proof.
  induction d; cbn [DecimalPos.Unsigned.of_lu DecimalPos.Unsigned.usize];
    [ reflexivity | .. ];
    rewrite N.pow_succ_r';
    generalize dependent (DecimalPos.Unsigned.of_lu d);
    generalize (10 ^ DecimalPos.Unsigned.usize d)%N; intros; lia.
Qed.

Lemma of_uint_upper (d : uint) :
  (N.of_uint d < 10 ^ N.of_nat (nb_digits d))%N.
Proof.
  unfold N.of_uint. rewrite DecimalPos.Unsigned.of_uint_alt.
  rewrite <- (nb_digits_rev d), <- usize_nb_digits. apply of_lu_upper.
Qed.

Lemma of_uint_lower (d : uint) :
  d <> Nil -> nzhead d = d ->
  (10 ^ N.of_nat (nb_digits d - 1) <= N.of_uint d)%N.
Proof.
  intros Hnil Hnz. unfold N.of_uint. rewrite DecimalPos.Unsigned.of_uint_alt.
  destruct d as [ | d | d | d | d | d | d | d | d | d | d ];
    [ contradiction | exfalso; apply (nzhead_nonzero (D0 d) d); exact Hnz | .. ];
    unfold rev; cbn [revapp nb_digits];
    rewrite DecimalPos.Unsigned.of_lu_revapp, usize_nb_digits;
    replace (S (nb_digits d) - 1)%nat with (nb_digits d) by lia;
    cbn [DecimalPos.Unsigned.of_lu]; lia.
Qed.

Lemma to_uint_normal (p : positive) : nzhead (Pos.to_uint p) = Pos.to_uint p.
Proof.
  pose proof (DecimalPos.Unsigned.to_of (Pos.to_uint p)) as H.
  rewrite DecimalPos.Unsigned.of_to in H. cbn [N.to_uint] in H.
  rewrite <- unorm_nzhead; [ symmetry; exact H | ].
  intros Hnil. apply unorm_0 in Hnil. rewrite <- H in Hnil.
  exact (DecimalPos.Unsigned.to_uint_nonzero p Hnil).
Qed.

Lemma length_string_of_uint (d : uint) :
  String.length (NilEmpty.string_of_uint d) = nb_digits d.
Proof. induction d; cbn; rewrite ?IHd; reflexivity. Qed.


Lemma ndigits_bounds (n : Z) :
  (0 < n -> 1 <= ndigits n /\ 10 ^ (ndigits n - 1) <= n < 10 ^ ndigits n)%Z.
Proof.
  intros Hn. unfold ndigits, dec.
  destruct n as [ | p | p ]; try lia. cbn [Z.to_N N.to_uint].
  pose proof (DecimalPos.Unsigned.to_uint_nonnil p) as Hnil.
  pose proof (to_uint_normal p) as Hnz.
  pose proof (of_uint_upper (Pos.to_uint p)) as Hup.
  pose proof (of_uint_lower (Pos.to_uint p) Hnil Hnz) as Hlo.
  unfold N.of_uint in Hup, Hlo.
  rewrite DecimalPos.Unsigned.of_to in Hup, Hlo.
  unfold NilZero.string_of_uint.
  assert (Hlen : String.length
            match Pos.to_uint p with
            | Nil => "0"%string
            | _ => NilEmpty.string_of_uint (Pos.to_uint p)
            end = nb_digits (Pos.to_uint p)).
  { destruct (Pos.to_uint p) eqn:E; try contradiction;
      rewrite <- E; apply length_string_of_uint. }
  rewrite Hlen.
  assert (Hpos : (1 <= nb_digits (Pos.to_uint p))%nat).
  { destruct (Pos.to_uint p); cbn; try lia. contradiction. }
  split; [ lia | ].
  replace (Z.of_nat (nb_digits (Pos.to_uint p)) - 1)%Z
    with (Z.of_N (N.of_nat (nb_digits (Pos.to_uint p) - 1))) by lia.
  replace (Z.of_nat (nb_digits (Pos.to_uint p)))
    with (Z.of_N (N.of_nat (nb_digits (Pos.to_uint p)))) at 2 by lia.
  change 10%Z with (Z.of_N 10).
  rewrite <- !N2Z.inj_pow. lia.
Qed.

(** Powers of ten. *)
Lemma pow10_pos (k : Z) : 0 <= k -> 0 < 10 ^ k.
Proof. intros Hk. apply Z.pow_pos_nonneg; lia. Qed.

Lemma pow10_add (a b : Z) : 0 <= a -> 0 <= b -> 10 ^ (a + b) = 10 ^ a * 10 ^ b.
Proof. intros. apply Z.pow_add_r; assumption. Qed.

(** [ge_pow10] with both sides scaled up. *)
Lemma ge_pow10_spec (num den c : Z) :
  ge_pow10 num den c = true <->
  den * 10 ^ Z.max 0 c <= num * 10 ^ Z.max 0 (- c).
Proof.
  unfold ge_pow10. destruct (0 <=? c) eqn:Hc.
  - apply Z.leb_le in Hc.
    rewrite (Z.max_r 0 c), (Z.max_l 0 (- c)) by lia.
    rewrite Z.leb_le. cbn. lia.
  - apply Z.leb_gt in Hc.
    rewrite (Z.max_l 0 c), (Z.max_r 0 (- c)) by lia.
    rewrite Z.leb_le. cbn. lia.
Qed.

Lemma floor_log10_spec (num den : Z) :
  0 < num -> 0 < den ->
  ge_pow10 num den (floor_log10 num den) = true
  /\ ge_pow10 num den (floor_log10 num den + 1) = false.
Proof.
  intros Hnum Hden. unfold floor_log10.
  destruct (ndigits_bounds num Hnum) as (Hn1 & Hnlo & Hnhi).
  destruct (ndigits_bounds den Hden) as (Hd1 & Hdlo & Hdhi).
  set (dn := ndigits num) in *. set (dd := ndigits den) in *.
  assert (Hlow : ge_pow10 num den (dn - dd - 1) = true).
  { apply ge_pow10_spec.
    destruct (Z.le_gt_cases 0 (dn - dd - 1)) as [Hc | Hc].
    - rewrite (Z.max_r 0 (dn - dd - 1)), (Z.max_l 0 (- (dn - dd - 1))) by lia.
      replace (dn - 1) with (dd + (dn - dd - 1)) in Hnlo by lia.
      rewrite pow10_add in Hnlo by lia.
      pose proof (pow10_pos (dn - dd - 1) Hc). cbn. nia.
    - rewrite (Z.max_l 0 (dn - dd - 1)), (Z.max_r 0 (- (dn - dd - 1))) by lia.
      replace dd with ((dn - 1) + (- (dn - dd - 1))) in Hdhi by lia.
      rewrite pow10_add in Hdhi by lia.
      pose proof (pow10_pos (- (dn - dd - 1)) ltac:(lia)). cbn. nia. }
  assert (Hhigh : ge_pow10 num den (dn - dd + 1) = false).
  { apply not_true_is_false. rewrite ge_pow10_spec.
    destruct (Z.le_gt_cases 0 (dn - dd + 1)) as [Hc | Hc].
    - rewrite (Z.max_r 0 (dn - dd + 1)), (Z.max_l 0 (- (dn - dd + 1))) by lia.
      replace dn with ((dd - 1) + (dn - dd + 1)) in Hnhi by lia.
      rewrite pow10_add in Hnhi by lia.
      pose proof (pow10_pos (dn - dd + 1) Hc). cbn. nia.
    - rewrite (Z.max_l 0 (dn - dd + 1)), (Z.max_r 0 (- (dn - dd + 1))) by lia.
      replace (dd - 1) with (dn + (- (dn - dd + 1))) in Hdlo by lia.
      rewrite pow10_add in Hdlo by lia.
      pose proof (pow10_pos (- (dn - dd + 1)) ltac:(lia)). cbn. nia. }
  destruct (ge_pow10 num den (dn - dd)) eqn:Hc.
  - split; [ exact Hc | exact Hhigh ].
  - split; [ exact Hlow | ].
    replace (dn - dd - 1 + 1) with (dn - dd) by lia. exact Hc.
Qed.

Lemma round_half_even_between (n d lo hi : Z) :
  0 < d -> lo * d <= n -> n < hi * d ->
  lo <= round_half_even n d <= hi.
Proof.
  intros Hd Hlo Hhi. unfold round_half_even.
  assert (H1 : lo <= n / d) by (apply Z.div_le_lower_bound; lia).
  assert (H2 : n / d < hi) by (apply Z.div_lt_upper_bound; lia).
  destruct (2 * (n mod d) ?= d); [ destruct (Z.even (n / d)) | | ]; lia.
Qed.

(** The scaled quotient that [sig_digits] rounds lies in the decade of
    [P]-digit numbers. *)
Lemma sig_digits_scaled (P num den : Z) :
  0 < num -> 0 < den -> 1 <= P ->
  let k := P - 1 - floor_log10 num den in
  let n' := if 0 <=? k then num * 10 ^ k else num in
  let d' := if 0 <=? k then den else den * 10 ^ (- k) in
  0 < d' /\ 10 ^ (P - 1) * d' <= n' /\ n' < 10 ^ P * d'.
Proof.
  intros Hnum Hden HP.
  destruct (floor_log10_spec num den Hnum Hden) as [Hge Hlt].
  apply ge_pow10_spec in Hge.
  apply not_true_iff_false in Hlt. rewrite ge_pow10_spec in Hlt.
  set (X0 := floor_log10 num den) in *. cbv zeta.
  pose proof (pow10_pos (P - 1) ltac:(lia)) as HP1.
  pose proof (pow10_pos P ltac:(lia)) as HP0.
  destruct (0 <=? P - 1 - X0) eqn:Hk.
  - apply Z.leb_le in Hk. split; [ exact Hden | ].
    pose proof (pow10_pos (P - 1 - X0) Hk) as Hkp.
    destruct (Z.le_gt_cases 0 X0) as [HX | HX].
    + rewrite (Z.max_r 0 X0), (Z.max_l 0 (- X0)) in Hge by lia.
      rewrite (Z.max_r 0 (X0 + 1)), (Z.max_l 0 (- (X0 + 1))) in Hlt by lia.
      assert (E1 : 10 ^ (P - 1) = 10 ^ X0 * 10 ^ (P - 1 - X0))
        by (rewrite <- pow10_add by lia; f_equal; lia).
      assert (E2 : 10 ^ P = 10 ^ (X0 + 1) * 10 ^ (P - 1 - X0))
        by (rewrite <- pow10_add by lia; f_equal; lia).
      rewrite Z.pow_0_r, Z.mul_1_r in Hge, Hlt.
      pose proof (pow10_pos X0 HX).
      pose proof (pow10_pos (X0 + 1) ltac:(lia)).
      rewrite E1, E2. split; nia.
    + rewrite (Z.max_l 0 X0), (Z.max_r 0 (- X0)) in Hge by lia.
      rewrite (Z.max_l 0 (X0 + 1)), (Z.max_r 0 (- (X0 + 1))) in Hlt by lia.
      assert (E1 : 10 ^ (P - 1 - X0) = 10 ^ (P - 1) * 10 ^ (- X0))
        by (rewrite <- pow10_add by lia; f_equal; lia).
      assert (E2 : 10 ^ (P - 1 - X0) = 10 ^ P * 10 ^ (- (X0 + 1)))
        by (rewrite <- pow10_add by lia; f_equal; lia).
      rewrite Z.pow_0_r, Z.mul_1_r in Hge, Hlt.
      pose proof (pow10_pos (- X0) ltac:(lia)).
      pose proof (pow10_pos (- (X0 + 1)) ltac:(lia)).
      split; [ rewrite E1 | rewrite E2 ]; nia.
  - apply Z.leb_gt in Hk.
    rewrite (Z.max_r 0 X0), (Z.max_l 0 (- X0)) in Hge by lia.
    rewrite (Z.max_r 0 (X0 + 1)), (Z.max_l 0 (- (X0 + 1))) in Hlt by lia.
    pose proof (pow10_pos (- (P - 1 - X0)) ltac:(lia)) as Hkp.
    assert (E1 : 10 ^ X0 = 10 ^ (P - 1) * 10 ^ (- (P - 1 - X0)))
      by (rewrite <- pow10_add by lia; f_equal; lia).
    assert (E2 : 10 ^ (X0 + 1) = 10 ^ P * 10 ^ (- (P - 1 - X0)))
      by (rewrite <- pow10_add by lia; f_equal; lia).
    rewrite Z.pow_0_r, Z.mul_1_r in Hge, Hlt.
    rewrite E1 in Hge. rewrite E2 in Hlt.
    split; [ nia | split; nia ].
Qed.

(** [sig_digits] gives exactly [P] significant digits, and an exponent
    next to the decade of the value. *)
Lemma sig_digits_range (P num den : Z) :
  0 < num -> 0 < den -> 1 <= P ->
  10 ^ (P - 1) <= fst (sig_digits P num den) < 10 ^ P
  /\ floor_log10 num den <= snd (sig_digits P num den) <= floor_log10 num den + 1.
Proof.
  intros Hnum Hden HP.
  destruct (sig_digits_scaled P num den Hnum Hden HP) as (Hd & Hlo & Hhi).
  unfold sig_digits. cbv zeta in *.
  set (X0 := floor_log10 num den) in *.
  assert (Hpow : 10 ^ (P - 1) < 10 ^ P)
    by (apply Z.pow_lt_mono_r; lia).
  assert (Hq : 10 ^ (P - 1) <=
               (if 0 <=? P - 1 - X0
                then round_half_even (num * 10 ^ (P - 1 - X0)) den
                else round_half_even num (den * 10 ^ (- (P - 1 - X0))))
               <= 10 ^ P).
  { destruct (0 <=? P - 1 - X0);
      apply round_half_even_between; assumption. }
  destruct (_ =? 10 ^ P) eqn:Hcarry; cbn [fst snd].
  - lia.
  - apply Z.eqb_neq in Hcarry. lia.
Qed.

(** Lengths of the pieces of a conversion. *)
Lemma length_app (s t : string) :
  String.length (s ++ t) = (String.length s + String.length t)%nat.
Proof. induction s as [ | c r IH ]; [ reflexivity | cbn; rewrite IH; reflexivity ]. Qed.

Lemma length_substring_le (s : string) (n m : nat) :
  (String.length (substring n m s) <= m)%nat.
Proof.
  revert n m. induction s as [ | c r IH ]; intros n m.
  - destruct n, m; cbn; lia.
  - destruct n as [ | n ]; cbn.
    + destruct m as [ | m ]; cbn; [ lia | ]. specialize (IH 0%nat m). lia.
    + apply IH.
Qed.

Lemma length_strip_zeros_le (s : string) :
  (String.length (strip_zeros s) <= String.length s)%nat.
Proof.
  induction s as [ | c r IH ]; [ cbn; lia | ].
  cbn [strip_zeros]. destruct (strip_zeros r) as [ | c' r' ].
  - destruct (Ascii.eqb c "0"); cbn; lia.
  - cbn in *. lia.
Qed.

Lemma length_zeros (n : nat) : String.length (zeros n) = n.
Proof. induction n as [ | n IH ]; [ reflexivity | cbn; rewrite IH; reflexivity ]. Qed.

Lemma length_with_point_le (ip fp : string) :
  (String.length (with_point ip fp) <= String.length ip + 1 + String.length fp)%nat.
Proof.
  unfold with_point. destruct fp as [ | c r ]; [ lia | ].
  rewrite !length_app. cbn. lia.
Qed.

Lemma length_dec_le (n k : Z) :
  0 <= n < 10 ^ k -> 1 <= k -> Z.of_nat (String.length (dec n)) <= k.
Proof.
  intros [Hn0 Hnk] Hk.
  destruct (Z.eq_dec n 0) as [-> | Hnz]; [ cbn; lia | ].
  destruct (ndigits_bounds n ltac:(lia)) as (H1 & Hlo & _).
  unfold ndigits in *.
  assert (Hlt : 10 ^ (Z.of_nat (String.length (dec n)) - 1) < 10 ^ k) by lia.
  apply Z.pow_lt_mono_r_iff in Hlt; lia.
Qed.

Lemma length_pad2_le (s : string) (k : nat) :
  (String.length s <= k)%nat -> (2 <= k)%nat -> (String.length (pad2 s) <= k)%nat.
Proof.
  intros Hs Hk. unfold pad2.
  destruct (String.length s <? 2)%nat eqn:Hlen; [ | exact Hs ].
  apply Nat.ltb_lt in Hlen. rewrite length_app. cbn. lia.
Qed.

Lemma length_style_f_le (P X : Z) (ds : string) :
  1 <= P -> -4 <= X < P -> Z.of_nat (String.length ds) <= P ->
  Z.of_nat (String.length (style_f P ds X)) <= P + 5.
Proof.
  intros HP HX Hds. unfold style_f.
  destruct (0 <=? X) eqn:H0.
  - apply Z.leb_le in H0.
    pose proof (length_with_point_le
                  (substring 0 (Z.to_nat (X + 1)) ds)
                  (strip_zeros (substring (Z.to_nat (X + 1)) (Z.to_nat (P - 1 - X)) ds))).
    pose proof (length_substring_le ds 0 (Z.to_nat (X + 1))).
    pose proof (length_strip_zeros_le
                  (substring (Z.to_nat (X + 1)) (Z.to_nat (P - 1 - X)) ds)).
    pose proof (length_substring_le ds (Z.to_nat (X + 1)) (Z.to_nat (P - 1 - X))).
    lia.
  - apply Z.leb_gt in H0.
    pose proof (length_with_point_le "0"
                  (strip_zeros (zeros (Z.to_nat (- X - 1)) ++ ds))) as H1.
    pose proof (length_strip_zeros_le (zeros (Z.to_nat (- X - 1)) ++ ds)) as H2.
    rewrite length_app, length_zeros in H2. cbn in H1. lia.
Qed.

Lemma length_style_e_le (P X : Z) (ds : string) :
  1 <= P -> Z.abs X < 1000 ->
  Z.of_nat (String.length (style_e P ds X)) <= P + 6.
Proof.
  intros HP HX. unfold style_e. rewrite !length_app.
  pose proof (length_with_point_le
                (substring 0 1 ds)
                (strip_zeros (substring 1 (Z.to_nat (P - 1)) ds))).
  pose proof (length_substring_le ds 0 1).
  pose proof (length_strip_zeros_le (substring 1 (Z.to_nat (P - 1)) ds)).
  pose proof (length_substring_le ds 1 (Z.to_nat (P - 1))).
  pose proof (length_dec_le (Z.abs X) 3 ltac:(cbn; lia) ltac:(lia)) as Hx.
  pose proof (length_pad2_le (dec (Z.abs X)) 3 ltac:(lia) ltac:(lia)).
  assert (Hs : String.length (if X <? 0 then "-" else "+") = 1%nat)
    by (destruct (X <? 0); reflexivity).
  rewrite Hs. cbn [String.length]. lia.
Qed.

(** What validity says of a finite binary64 value. *)
Lemma digits2_pos_bound (m : positive) : Zpos m < 2 ^ Zpos (digits2_pos m).
Proof.
  induction m as [ m IH | m IH | ]; cbn [digits2_pos];
    [ | | reflexivity ];
    rewrite Pos2Z.inj_succ, Z.pow_succ_r by lia; lia.
Qed.

Lemma bounded_binary64 (m : positive) (e : Z) :
  bounded prec emax m e = true ->
  Zpos m < 2 ^ 53 /\ -1074 <= e <= 971.
Proof.
  unfold bounded, canonical_mantissa, fexp, SpecFloat.emin, prec, emax.
  intros H. apply andb_prop in H. destruct H as [Hc He].
  apply Z.eqb_eq in Hc. apply Z.leb_le in He.
  pose proof (digits2_pos_bound m) as Hm.
  assert (Hd : Zpos (digits2_pos m) <= 53) by lia.
  split; [ | lia ].
  eapply Z.lt_le_trans; [ exact Hm | ].
  apply Z.pow_le_mono_r; lia.
Qed.

Lemma floor_log10_range (num den : Z) :
  0 < num < 10 ^ 309 -> 0 < den < 10 ^ 324 ->
  -324 <= floor_log10 num den <= 308.
Proof.
  intros [Hn0 Hn1] [Hd0 Hd1]. unfold floor_log10.
  destruct (ndigits_bounds num Hn0) as (Hn & _).
  destruct (ndigits_bounds den Hd0) as (Hd & _).
  pose proof (length_dec_le num 309 ltac:(lia) ltac:(lia)) as Hn'.
  pose proof (length_dec_le den 324 ltac:(lia) ltac:(lia)) as Hd'.
  fold (ndigits num) in Hn'. fold (ndigits den) in Hd'.
  destruct (ge_pow10 num den (ndigits num - ndigits den)); lia.
Qed.

(** The rational a finite binary64 value stands for. *)
Lemma binary64_fraction (m : positive) (e : Z) :
  Zpos m < 2 ^ 53 -> -1074 <= e <= 971 ->
  0 < (if 0 <=? e then Zpos m * 2 ^ e else Zpos m) < 10 ^ 309
  /\ 0 < (if 0 <=? e then 1 else 2 ^ (- e)) < 10 ^ 324.
Proof.
  intros Hm He.
  destruct (0 <=? e) eqn:H0.
  - apply Z.leb_le in H0.
    assert (Hp : 0 < 2 ^ e) by (apply Z.pow_pos_nonneg; lia).
    assert (Hle : 2 ^ e <= 2 ^ 971) by (apply Z.pow_le_mono_r; lia).
    assert (Hbig : 2 ^ 53 * 2 ^ 971 < 10 ^ 309) by (vm_compute; reflexivity).
    split; [ split; [ lia | nia ] | split; [ lia | vm_compute; reflexivity ] ].
  - apply Z.leb_gt in H0.
    assert (Hp : 0 < 2 ^ (- e)) by (apply Z.pow_pos_nonneg; lia).
    assert (Hle : 2 ^ (- e) <= 2 ^ 1074) by (apply Z.pow_le_mono_r; lia).
    assert (Hbig : 2 ^ 1074 < 10 ^ 324) by (vm_compute; reflexivity).
    assert (Hbig' : 2 ^ 53 < 10 ^ 309) by (vm_compute; reflexivity).
    split; [ split; lia | split; lia ].
Qed.

(** A valid binary64 value takes at most [P + 7] characters. *)
Lemma format_g_length (p : Z) (x : spec_float) :
  1 <= p -> valid_binary x = true ->
  Z.of_nat (String.length (format_g p x)) <= p + 7.
Proof.
  intros Hp Hx. unfold format_g.
  replace (p =? 0) with false by (symmetry; apply Z.eqb_neq; lia).
  destruct x as [ s | s | | s m e ].
  - destruct s; cbn; lia.
  - destruct s; cbn; lia.
  - cbn; lia.
  - cbn [SpecFloat.valid_binary] in Hx.
    destruct (bounded_binary64 m e Hx) as [Hm He].
    destruct (binary64_fraction m e Hm He) as [Hnum Hden].
    set (num := if 0 <=? e then Zpos m * 2 ^ e else Zpos m) in *.
    set (den := if 0 <=? e then 1 else 2 ^ (- e)) in *.
    destruct (sig_digits_range p num den ltac:(lia) ltac:(lia) Hp) as [Hq HX].
    pose proof (floor_log10_range num den Hnum Hden) as HX0.
    destruct (sig_digits p num den) as [q X]. cbn [fst snd] in Hq, HX.
    pose proof (length_dec_le q p ltac:(pose proof (pow10_pos (p - 1)); lia) Hp) as Hds.
    rewrite length_app.
    assert (Hs : (String.length (sign s) <= 1)%nat) by (destruct s; cbn; lia).
    destruct ((-4 <=? X) && (X <? p)) eqn:Hstyle.
    + apply andb_prop in Hstyle. destruct Hstyle as [Ha Hb].
      apply Z.leb_le in Ha. apply Z.ltb_lt in Hb.
      pose proof (length_style_f_le p X (dec q) Hp ltac:(lia) Hds). lia.
    + pose proof (length_style_e_le p X (dec q) Hp ltac:(lia)). lia.
Qed.

Lemma put_double_length (d : float) :
  (String.length (put_double d) <= 13)%nat.
Proof.
  unfold put_double.
  pose proof (format_g_length default_precision (Prim2SF d)
                ltac:(unfold default_precision; lia) (Prim2SF_valid d)) as H.
  unfold default_precision in *. lia.
Qed.

End OstreamFacts.

(** *** The length of the line *)

(** X8.  Whatever the environment and the vector, the text a run leaves
    on standard output is at most 42 characters long: three components
    of at most 13 characters each (sign, six significant digits and the
    decimal point, and an exponent of at most three digits), two spaces
    and the newline. *)
Theorem output_line_is_short (L : ClientLibrary) (w : world) :
  (String.length (stdout (run w main)) <= 42)%nat.
Proof.
  unfold stdout.
  on_run w; cbn [trace inserted]; try (cbn; lia).
  rewrite text_of_vector. rewrite !OstreamFacts.length_app.
  pose proof (OstreamFacts.put_double_length (get0 v)).
  pose proof (OstreamFacts.put_double_length (get1 v)).
  pose proof (OstreamFacts.put_double_length (get2 v)).
  cbn [String.length newline]. lia.
Qed.

(** The bound on a component is reached. *)
Example put_double_longest :
  Ostream.put_double (-0x1p-1000)%float = "-9.33264e-302"
  /\ String.length (Ostream.put_double (-0x1p-1000)%float) = 13%nat.
Proof. vm_compute. split; reflexivity. Qed.

(** *** The further properties on concrete runs *)

Lemma blocked_call_hangs_silently_witness :
  In (EPrograde 8%N Blocks) (trace (run Demo.stalled main))
  /\ blocked (EPrograde 8%N Blocks) = true
  /\ status (run Demo.stalled main) = Hung
  /\ stdout (run Demo.stalled main) = "".
Proof.
  assert (Hin : In (EPrograde 8%N Blocks) (trace (run Demo.stalled main)))
    by (cbn; auto 6).
  assert (Hb : blocked (EPrograde 8%N Blocks) = true) by reflexivity.
  split; [ exact Hin | split; [ exact Hb | ] ].
  destruct (blocked_call_hangs_silently Demo.stalled _ Hin Hb)
    as (Hst & _ & _ & Hout).
  split; [ exact Hst | exact Hout ].
Defined.

Lemma output_depends_only_on_vector_witness :
  In (EPrograde 8%N (Returns Demo.north_east))
     (trace (run (Demo.serving Demo.north_east) main))
  /\ In (EPrograde 200%N (Returns Demo.north_east))
        (trace (run (Demo.renumbered Demo.north_east) main))
  /\ stdout (run (Demo.serving Demo.north_east) main)
     = stdout (run (Demo.renumbered Demo.north_east) main).
Proof.
  assert (H1 : In (EPrograde 8%N (Returns Demo.north_east))
                  (trace (run (Demo.serving Demo.north_east) main)))
    by (cbn; auto 6).
  assert (H2 : In (EPrograde 200%N (Returns Demo.north_east))
                  (trace (run (Demo.renumbered Demo.north_east) main)))
    by (cbn; auto 6).
  split; [ exact H1 | split; [ exact H2 | ] ].
  destruct (output_depends_only_on_vector Demo.lib Demo.lib
              (Demo.serving Demo.north_east) (Demo.renumbered Demo.north_east)
              8%N 200%N Demo.north_east H1 H2) as [_ Hout].
  exact Hout.
Defined.

Lemma output_reads_back_as_three_fields_witness :
  In (EPrograde 8%N (Returns Demo.north_east))
     (trace (run (Demo.serving Demo.north_east) main))
  /\ fields (stdout (run (Demo.serving Demo.north_east) main))
     = ["0.5"; "-0.5"; "0.75"]%string.
Proof.
  assert (Hin : In (EPrograde 8%N (Returns Demo.north_east))
                   (trace (run (Demo.serving Demo.north_east) main)))
    by (cbn; auto 6).
  split; [ exact Hin | ].
  rewrite (output_reads_back_as_three_fields
             (Demo.serving Demo.north_east) 8%N 0.5 (-0.5) 0.75 Hin).
  vm_compute. reflexivity.
Defined.
